(** * astro.config.mjs: the site configuration of the DevBook documentation site

    The repository's only program text is [astro.config.mjs]: three import
    declarations and one default export, the call [defineConfig({...})] on an
    object literal.  The file is present in two revisions; both are embedded
    below, literal for literal, as values of [JsValue]. *)

From Stdlib Require Import String Ascii List Bool Arith Lia.
From Stdlib Require Import Sorting.Permutation Sorting.Sorted Sorting.Mergesort.
From Stdlib Require Import Orders OrderedTypeEx RelationClasses.
Import ListNotations.
Local Open Scope string_scope.
Local Open Scope list_scope.

(** ** JavaScript literals *)

(** What the configuration module is written with: string and boolean
    literals, array literals, object literals (property order kept, as in the
    source text), references to imported bindings and calls of imported
    functions. *)
#[local] Set Warnings "-register-all".

Inductive JsValue : Type :=
| JStr (s : string)
| JBool (b : bool)
| JArr (elems : list JsValue)
| JObj (props : list (string * JsValue))
| JImport (binding : string)
| JCall (callee : string) (args : list JsValue).

(** An ES module reduced to what the file has: its import declarations
    (local binding, module specifier) and the expression it exports by
    default. *)
Record JsModule : Type := {
  imports : list (string * string);
  default_export : JsValue
}.

(** ** The source *)

(** [astro.config.mjs], first revision (lines 1-58). *)
Definition astro_config_1 : JsModule := {|
  imports := [ ("defineConfig", "astro/config");
               ("starlight", "@astrojs/starlight");
               ("rehypeMermaid", "rehype-mermaid") ];
  default_export :=
    JCall "defineConfig" [
      JObj [
        ("site", JStr "https://j-ochmann.github.io");
        ("base", JStr "/astro");
        ("markdown", JObj [
          ("syntaxHighlight", JObj [
            ("type", JStr "shiki");
            ("excludeLangs", JArr [JStr "mermaid"]) ]);
          ("rehypePlugins", JArr [
            JArr [ JImport "rehypeMermaid";
                   JObj [
                     ("mermaidConfig", JObj [ ("theme", JStr "default") ]);
                     ("dark", JBool false) ] ] ]) ]);
        ("integrations", JArr [
          JCall "starlight" [
            JObj [
              ("title", JStr "DevBook");
              ("social", JArr [
                JObj [ ("icon", JStr "github");
                       ("label", JStr "GitHub");
                       ("href", JStr "https://github.com/j-ochmann") ] ]);
              ("sidebar", JArr [
                JObj [ ("label", JStr "Quick Reference");
                       ("autogenerate",
                          JObj [ ("directory", JStr "quick_reference") ]);
                       ("collapsed", JBool true) ];
                JObj [ ("label", JStr "Design Patterns");
                       ("link", JStr "design_patterns");
                       ("collapsed", JBool true);
                       ("items", JArr [
                          JObj [ ("label", JStr "Creational");
                                 ("slug", JStr "design_patterns/creational") ];
                          JObj [ ("label", JStr "Structural");
                                 ("slug", JStr "design_patterns/structural") ];
                          JObj [ ("label", JStr "Behavioral");
                                 ("slug", JStr "design_patterns/behavioral") ] ]) ];
                JObj [ ("label", JStr "External Resources");
                       ("autogenerate",
                          JObj [ ("directory", JStr "external") ]);
                       ("collapsed", JBool true) ] ]) ] ] ]) ] ]
|}.

(** [astro.config.mjs], second revision (after the document separator).  The
    [Guides] group is commented out in the source and so is no part of the
    value. *)
Definition astro_config_2 : JsModule := {|
  imports := [ ("defineConfig", "astro/config");
               ("starlight", "@astrojs/starlight");
               ("rehypeMermaid", "rehype-mermaid") ];
  default_export :=
    JCall "defineConfig" [
      JObj [
        ("site", JStr "https://j-ochmann.github.io");
        ("base", JStr "/astro");
        ("markdown", JObj [
          ("syntaxHighlight", JObj [
            ("type", JStr "shiki");
            ("excludeLangs", JArr [JStr "mermaid"]) ]);
          ("rehypePlugins", JArr [
            JArr [ JImport "rehypeMermaid";
                   JObj [
                     ("mermaidConfig", JObj [ ("theme", JStr "default") ]);
                     ("dark", JBool false) ] ] ]) ]);
        ("integrations", JArr [
          JCall "starlight" [
            JObj [
              ("title", JStr "DevBook");
              ("social", JArr [
                JObj [ ("icon", JStr "github");
                       ("label", JStr "GitHub");
                       ("href", JStr "https://github.com/j-ochmann") ] ]);
              ("sidebar", JArr [
                JObj [ ("label", JStr "Design Patterns");
                       ("autogenerate",
                          JObj [ ("directory", JStr "design_patterns") ]);
                       ("collapsed", JBool true) ] ]) ] ] ]) ] ]
|}.

(** ** Reading the configuration *)

(** Every reader is partial: a key may be absent or hold a value of another
    kind, and then the reader answers [None]. *)

Definition bind {A B : Type} (o : option A) (f : A -> option B) : option B :=
  match o with
  | Some a => f a
  | None => None
  end.

Notation "x <- o ;; k" := (bind o (fun x => k))
  (at level 61, o at next level, right associativity).

(** First binding of key [k] in a property list. *)
Fixpoint assoc (k : string) (ps : list (string * JsValue)) : option JsValue :=
  match ps with
  | [] => None
  | (k', v) :: rest => if String.eqb k k' then Some v else assoc k rest
  end.

(** Property access [v.k]. *)
Definition prop (k : string) (v : JsValue) : option JsValue :=
  match v with
  | JObj ps => assoc k ps
  | _ => None
  end.

(** Access along a path of keys, [v.k1.k2...]. *)
Fixpoint path (ks : list string) (v : JsValue) : option JsValue :=
  match ks with
  | [] => Some v
  | k :: rest => w <- prop k v ;; path rest w
  end.

Definition keys (v : JsValue) : list string :=
  match v with
  | JObj ps => map fst ps
  | _ => []
  end.

Definition has_key (k : string) (v : JsValue) : bool :=
  existsb (String.eqb k) (keys v).

Definition as_string (v : JsValue) : option string :=
  match v with JStr s => Some s | _ => None end.

Definition as_bool (v : JsValue) : option bool :=
  match v with JBool b => Some b | _ => None end.

Definition as_array (v : JsValue) : option (list JsValue) :=
  match v with JArr l => Some l | _ => None end.

Definition as_object (v : JsValue) : option (list (string * JsValue)) :=
  match v with JObj ps => Some ps | _ => None end.

(** All-or-nothing traversal of a list with a partial reader. *)
Fixpoint traverse {A B : Type} (f : A -> option B) (l : list A) : option (list B) :=
  match l with
  | [] => Some []
  | a :: rest => b <- f a ;; bs <- traverse f rest ;; Some (b :: bs)
  end.

(** The object handed to [defineConfig]. *)
Definition config_object (m : JsModule) : option JsValue :=
  match default_export m with
  | JCall "defineConfig" [o] => Some o
  | _ => None
  end.

(** The options object handed to [starlight] in the [integrations] array. *)
Definition starlight_options (m : JsModule) : option JsValue :=
  c <- config_object m ;;
  i <- prop "integrations" c ;;
  match i with
  | JArr [JCall "starlight" [o]] => Some o
  | _ => None
  end.

Definition site (m : JsModule) : option string :=
  c <- config_object m ;; v <- prop "site" c ;; as_string v.

Definition base (m : JsModule) : option string :=
  c <- config_object m ;; v <- prop "base" c ;; as_string v.

Definition markdown (m : JsModule) : option JsValue :=
  c <- config_object m ;; prop "markdown" c.

Definition title (m : JsModule) : option string :=
  o <- starlight_options m ;; v <- prop "title" o ;; as_string v.

Definition social (m : JsModule) : option JsValue :=
  o <- starlight_options m ;; prop "social" o.

(** The top-level sidebar entries, in declaration order. *)
Definition sidebar (m : JsModule) : option (list JsValue) :=
  o <- starlight_options m ;; v <- prop "sidebar" o ;; as_array v.

(** ** Sidebar entries *)

(** The three shapes an entry can have, read off its keys. *)
Definition is_link_entry (e : JsValue) : bool :=
  has_key "slug" e || has_key "link" e.

Definition is_group_entry (e : JsValue) : bool :=
  has_key "items" e.

Definition is_autogen_entry (e : JsValue) : bool :=
  has_key "autogenerate" e.

(** Number of shapes an entry has at once. *)
Definition shape_count (e : JsValue) : nat :=
  (if is_link_entry e then 1 else 0)
  + (if is_group_entry e then 1 else 0)
  + (if is_autogen_entry e then 1 else 0).

(** The keys that make up a shape, and the one display flag. *)
Definition shape_keys : list string :=
  ["label"; "slug"; "link"; "items"; "autogenerate"].

Definition entry_keys_ok (e : JsValue) : bool :=
  forallb (fun k => existsb (String.eqb k) ("collapsed" :: shape_keys)) (keys e).

(** A nested item of a group: a label and a slug or link, nothing else. *)
Definition is_plain_link (e : JsValue) : bool :=
  match e with
  | JObj [("label", JStr _); ("slug", JStr _)] => true
  | JObj [("label", JStr _); ("link", JStr _)] => true
  | _ => false
  end.

Definition group_items (e : JsValue) : list JsValue :=
  match prop "items" e with
  | Some (JArr l) => l
  | _ => []
  end.

(** An entry of a single shape: exactly one of the three shapes, a label,
    no key besides the shape keys and [collapsed], and plain links for
    nested items. *)
Definition single_shape (e : JsValue) : bool :=
  Nat.eqb (shape_count e) 1
  && has_key "label" e
  && entry_keys_ok e
  && forallb is_plain_link (group_items e).

(** The [collapsed] flag of an entry. *)
Definition collapsed (e : JsValue) : option bool :=
  v <- prop "collapsed" e ;; as_bool v.

(** The directory of an autogeneration directive. *)
Definition autogenerate_directory (e : JsValue) : option string :=
  a <- prop "autogenerate" e ;; d <- prop "directory" a ;; as_string d.

(** The top-level sidebar entries; none when the configuration has no
    readable sidebar. *)
Definition sidebar_entries (m : JsModule) : list JsValue :=
  match sidebar m with
  | Some l => l
  | None => []
  end.

(** The configuration object without its [integrations], paired with the
    theme options without their [sidebar]: everything the configuration
    declares apart from the sidebar. *)
Definition remove_key (k : string) (ps : list (string * JsValue))
  : list (string * JsValue) :=
  filter (fun kv => negb (String.eqb k (fst kv))) ps.

Definition all_but_sidebar (m : JsModule)
  : option (list (string * JsValue) * list (string * JsValue)) :=
  c <- config_object m ;;
  cps <- as_object c ;;
  o <- starlight_options m ;;
  ops <- as_object o ;;
  Some (remove_key "integrations" cps, remove_key "sidebar" ops).

(** The object [e] without key [k]. *)
Definition without_key (k : string) (e : JsValue) : JsValue :=
  match e with
  | JObj ps => JObj (remove_key k ps)
  | _ => e
  end.

(** Writing [v] at the first binding of key [k]. *)
Fixpoint set_key (k : string) (v : JsValue) (ps : list (string * JsValue))
  : list (string * JsValue) :=
  match ps with
  | [] => []
  | (k', w) :: rest =>
      if String.eqb k k' then (k', v) :: rest else (k', w) :: set_key k v rest
  end.

(** The exported expression of [m] with [entries] for its sidebar and all
    else as it is. *)
Definition with_sidebar (entries : list JsValue) (m : JsModule) : option JsValue :=
  c <- config_object m ;;
  cps <- as_object c ;;
  o <- starlight_options m ;;
  ops <- as_object o ;;
  Some (JCall "defineConfig" [
    JObj (set_key "integrations"
            (JArr [JCall "starlight" [JObj (set_key "sidebar" (JArr entries) ops)]])
            cps) ]).

(** ** The generator's side, as the specification describes it *)

(** The configuration is consumed by an external generator.  What the
    specification says about that consumer is modelled here, over the values
    read from the source above. *)

(** Modelled from the spec: the content collection.  The content files are
    given by their paths below the content root, extension dropped, which is
    also the slug of the page: [design_patterns/behavioral] for the page of
    behavioral patterns. *)
Definition Content : Type := list string.

Definition page_exists (content : Content) (slug : string) : bool :=
  existsb (String.eqb slug) content.

(** Modelled from the spec: a content file is found under a directory when
    its path starts with the directory's name and a slash. *)
Definition under (dir file : string) : bool :=
  String.prefix (dir ++ "/") file.

Definition directory_exists (content : Content) (dir : string) : bool :=
  existsb (under dir) content.

(** Modelled from the spec: the path a page is served at, [the base path
    prefix joined with the slug and a trailing slash]. *)
Definition page_path (base_path slug : string) : string :=
  base_path ++ "/" ++ slug ++ "/".

(** Filename order: the lexicographic order of the characters' codes. *)
Module FilenameOrder <: TotalLeBool.

Definition t := string.

Definition leb := String.leb.

Definition leb_total : forall a b, leb a b = true \/ leb b a = true :=
  String.leb_total.

End FilenameOrder.

Module FilenameSort := Sort FilenameOrder.

Definition filename_le (a b : string) : Prop := String.leb a b = true.

(** Modelled from the spec: an autogeneration directive [produces one
    navigation item per content file found under that directory, in filename
    order]. *)
Definition autogenerate_items (content : Content) (dir : string) : list string :=
  FilenameSort.sort (filter (under dir) content).

(** What a sidebar entry refers to: pages by slug or link, directories by
    autogeneration directive. *)
Inductive NavRef : Type :=
| RefPage (target : string)
| RefDir (dir : string).

(** The references of one property of an entry; [nav_refs] below supplies
    the recursion into nested items. *)
Definition prop_refs (rec : JsValue -> list NavRef) (k : string) (v : JsValue)
  : list NavRef :=
  if String.eqb k "slug" || String.eqb k "link" then
    match v with JStr s => [RefPage s] | _ => [] end
  else if String.eqb k "autogenerate" then
    match prop "directory" v with Some (JStr d) => [RefDir d] | _ => [] end
  else if String.eqb k "items" then
    match v with JArr l => flat_map rec l | _ => [] end
  else [].

(** The references of an entry, nested items included, in source order. *)
Fixpoint nav_refs (e : JsValue) : list NavRef :=
  match e with
  | JObj ps =>
      (fix props (ps : list (string * JsValue)) : list NavRef :=
         match ps with
         | [] => []
         | (k, v) :: rest => prop_refs nav_refs k v ++ props rest
         end) ps
  | _ => []
  end.

(** Modelled from the spec: [Every sidebar entry resolves to either an
    existing content slug or a valid autogeneration directory]. *)
Definition ref_resolves (content : Content) (r : NavRef) : bool :=
  match r with
  | RefPage s => page_exists content s
  | RefDir d => directory_exists content d
  end.

Definition sidebar_resolves (content : Content) (entries : list JsValue) : bool :=
  forallb (ref_resolves content) (flat_map nav_refs entries).

(** A generated navigation target: a page, or a target with nothing behind
    it. *)
Inductive NavTarget : Type :=
| Page (slug : string)
| Broken (what : string).

Definition expand_ref (content : Content) (r : NavRef) : list NavTarget :=
  match r with
  | RefPage s => [if page_exists content s then Page s else Broken s]
  | RefDir d => map Page (autogenerate_items content d)
  end.

(** Modelled from the spec: where the page of a slug is served under the
    configuration's [base]. *)
Definition served_at (m : JsModule) (slug : string) : option string :=
  b <- base m ;; Some (page_path b slug).

(** The navigation targets generated for a sequence of entries. *)
Definition navigation (content : Content) (entries : list JsValue) : list NavTarget :=
  flat_map (expand_ref content) (flat_map nav_refs entries).

(** The page slugs among the targets. *)
Fixpoint pages_of (ts : list NavTarget) : list string :=
  match ts with
  | [] => []
  | Page s :: rest => s :: pages_of rest
  | Broken _ :: rest => pages_of rest
  end.

(** ** Markdown settings *)

(** Modelled from the spec: the [enumerated external engine identifier]; the
    generator knows these two engines. *)
Inductive Highlighter : Type := Shiki | Prism.

Definition highlighter_of_string (s : string) : option Highlighter :=
  if String.eqb s "shiki" then Some Shiki
  else if String.eqb s "prism" then Some Prism
  else None.

Definition syntax_highlight_type (m : JsModule) : option Highlighter :=
  md <- markdown m ;;
  v <- path ["syntaxHighlight"; "type"] md ;;
  s <- as_string v ;;
  highlighter_of_string s.

Definition excludeLangs (m : JsModule) : option (list string) :=
  md <- markdown m ;;
  v <- path ["syntaxHighlight"; "excludeLangs"] md ;;
  l <- as_array v ;;
  traverse as_string l.

(** An entry of the plugin pipeline: the imported plugin and its options. *)
Definition as_plugin_entry (v : JsValue) : option (string * JsValue) :=
  match v with
  | JArr [JImport plugin; JObj opts] => Some (plugin, JObj opts)
  | _ => None
  end.

Definition rehypePlugins (m : JsModule) : option (list (string * JsValue)) :=
  md <- markdown m ;;
  v <- prop "rehypePlugins" md ;;
  l <- as_array v ;;
  traverse as_plugin_entry l.

(** Modelled from the spec: [language tags skipped by the highlighter]; a
    fenced block is highlighted unless its language tag is excluded. *)
Definition highlights (excluded : list string) (lang : string) : bool :=
  negb (existsb (String.eqb lang) excluded).

(** The options of the first pipeline entry for plugin [plugin]. *)
Fixpoint plugin_options (plugin : string) (entries : list (string * JsValue))
  : option JsValue :=
  match entries with
  | [] => None
  | (p, o) :: rest => if String.eqb plugin p then Some o else plugin_options plugin rest
  end.

Definition mermaid_options (m : JsModule) : option JsValue :=
  l <- rehypePlugins m ;; plugin_options "rehypeMermaid" l.

(** Modelled from the spec: the diagram plugin's [supported enumeration] of
    theme names.  The specification does not list them; these are the themes
    the diagram renderer ships. *)
Definition mermaid_themes : list string :=
  ["default"; "base"; "dark"; "forest"; "neutral"; "null"].

Definition is_mermaid_theme (s : string) : bool :=
  existsb (String.eqb s) mermaid_themes.

(** A value written with literals only: no imported binding and no call has
    a part in it. *)
Fixpoint is_literal (v : JsValue) : bool :=
  match v with
  | JStr _ | JBool _ => true
  | JArr l => forallb is_literal l
  | JObj ps =>
      (fix all (ps : list (string * JsValue)) : bool :=
         match ps with
         | [] => true
         | (_, w) :: rest => is_literal w && all rest
         end) ps
  | JImport _ | JCall _ _ => false
  end.

(** ** The expected shape of the configuration *)

Definition chars (s : string) : list ascii := list_ascii_of_string s.

Definition is_alnum (c : ascii) : bool :=
  let n := nat_of_ascii c in
  (Nat.leb 48 n && Nat.leb n 57) || (Nat.leb 65 n && Nat.leb n 90)
  || (Nat.leb 97 n && Nat.leb n 122).

Definition is_path_char (c : ascii) : bool :=
  is_alnum c || existsb (Ascii.eqb c) (chars "/-_.~").

Definition is_host_char (c : ascii) : bool :=
  is_alnum c || existsb (Ascii.eqb c) (chars "-.").

(** Modelled from the spec: a [well-formed path], absolute and written with
    unreserved characters and slashes. *)
Definition well_formed_path (s : string) : bool :=
  String.prefix "/" s && forallb is_path_char (chars s).

(** What follows the scheme of a URL: a host that is not empty, then
    nothing or an absolute path. *)
Fixpoint host_and_path (seen_host : bool) (cs : list ascii) : bool :=
  match cs with
  | [] => seen_host
  | c :: rest =>
      if Ascii.eqb c "/"%char then seen_host && forallb is_path_char rest
      else is_host_char c && host_and_path true rest
  end.

Definition strip_prefix (p s : string) : option string :=
  if String.prefix p s
  then Some (substring (String.length p) (String.length s - String.length p) s)
  else None.

(** Modelled from the spec: a [well-formed URL], an http or https origin with
    an optional path. *)
Definition well_formed_url (s : string) : bool :=
  match strip_prefix "https://" s, strip_prefix "http://" s with
  | Some r, _ | None, Some r => host_and_path false (chars r)
  | None, None => false
  end.

(** Modelled from the spec: the shapes of the table of configuration keys. *)
Inductive Schema : Type :=
| SString
| SBool
| SUrl
| SPath
| SEnum (allowed : list string)
| SPlugin
| SArrayOf (elem : Schema)
| STuple (parts : list Schema)
| SObject (fields : list (string * (bool * Schema)))
| SCallOf (callee : string) (arg : Schema)
| SEither (left right : Schema).

(** No string occurs twice. *)
Fixpoint distinct (l : list string) : bool :=
  match l with
  | [] => true
  | x :: rest => negb (existsb (String.eqb x) rest) && distinct rest
  end.

(** [validate sc v]: [v] has the shape [sc].  An object must hold every
    required field, no key outside the fields, and no key twice. *)
Fixpoint validate (sc : Schema) (v : JsValue) {struct sc} : bool :=
  match sc, v with
  | SString, JStr _ => true
  | SBool, JBool _ => true
  | SUrl, JStr s => well_formed_url s
  | SPath, JStr s => well_formed_path s
  | SEnum allowed, JStr s => existsb (String.eqb s) allowed
  | SPlugin, JImport _ => true
  | SArrayOf elem, JArr l => forallb (validate elem) l
  | STuple parts, JArr l =>
      (fix tuple (parts : list Schema) (l : list JsValue) : bool :=
         match parts, l with
         | [], [] => true
         | p :: parts', x :: l' => validate p x && tuple parts' l'
         | _, _ => false
         end) parts l
  | SObject fields, JObj ps =>
      forallb (fun k => existsb (fun f => String.eqb k (fst f)) fields) (map fst ps)
      && distinct (map fst ps)
      && (fix each (fields : list (string * (bool * Schema))) : bool :=
            match fields with
            | [] => true
            | (k, (req, s)) :: rest =>
                match assoc k ps with
                | Some w => validate s w
                | None => negb req
                end && each rest
            end) fields
  | SCallOf callee arg, JCall f [x] => String.eqb f callee && validate arg x
  | SEither l r, _ => validate l v || validate r v
  | _, _ => false
  end.

Definition link_item_schema : Schema :=
  SEither (SObject [("label", (true, SString)); ("slug", (true, SString))])
          (SObject [("label", (true, SString)); ("link", (true, SString))]).

(** Modelled from the spec: a navigation entry is [either an explicit
    link/group or a directory-autogeneration directive with a collapsed
    display flag].  The shapes exclude one another: a link entry is a label
    with a slug or a link, a group a label with items, a directive a label
    with an autogeneration directive; each may carry [collapsed], and
    nothing else. *)
Definition link_entry_schema : Schema :=
  SEither (SObject [("label", (true, SString));
                    ("slug", (true, SString));
                    ("collapsed", (false, SBool))])
          (SObject [("label", (true, SString));
                    ("link", (true, SString));
                    ("collapsed", (false, SBool))]).

Definition group_entry_schema : Schema :=
  SObject [("label", (true, SString));
           ("collapsed", (false, SBool));
           ("items", (true, SArrayOf link_item_schema))].

Definition autogenerate_entry_schema : Schema :=
  SObject [("label", (true, SString));
           ("autogenerate", (true, SObject [("directory", (true, SString))]));
           ("collapsed", (false, SBool))].

Definition sidebar_entry_schema : Schema :=
  SEither link_entry_schema
          (SEither group_entry_schema autogenerate_entry_schema).

(** Modelled from the spec: the table of configuration keys of its section
    on external interfaces.  The table names no optional key, so every key
    of it is required here. *)
Definition config_schema : Schema :=
  SCallOf "defineConfig" (SObject [
    ("site", (true, SUrl));
    ("base", (true, SPath));
    ("markdown", (true, SObject [
       ("syntaxHighlight", (true, SObject [
          ("type", (true, SEnum ["shiki"; "prism"]));
          ("excludeLangs", (true, SArrayOf SString)) ]));
       ("rehypePlugins", (true, SArrayOf (STuple [
          SPlugin;
          SObject [ ("mermaidConfig", (true, SObject [
                       ("theme", (true, SEnum mermaid_themes)) ]));
                    ("dark", (true, SBool)) ] ]))) ]));
    ("integrations", (true, SArrayOf (SCallOf "starlight" (SObject [
       ("title", (true, SString));
       ("social", (true, SArrayOf (SObject [
          ("icon", (true, SString));
          ("label", (true, SString));
          ("href", (true, SUrl)) ])));
       ("sidebar", (true, SArrayOf sidebar_entry_schema)) ])))) ]).

(** ** Evaluating the module *)

(** JavaScript objects and arrays live in a store: evaluating a literal
    allocates a fresh object each time.  The store is modelled explicitly,
    so that it can be said what an evaluation allocates and what it leaves
    unchanged. *)

Inductive Val : Type :=
| VStr (s : string)
| VBool (b : bool)
| VImport (binding : string)
| VRef (loc : nat).

(** A stored object.  The result of calling an imported function is kept
    as the call itself: the functions are the generator's. *)
Inductive Cell : Type :=
| CArr (elems : list Val)
| CObj (props : list (string * Val))
| CCall (callee : string) (args : list Val).

(** The store: location [l] is the [l]-th cell. *)
Definition Heap : Type := list Cell.

Definition alloc (c : Cell) (h : Heap) : Val * Heap :=
  (VRef (List.length h), h ++ [c]).

(** Evaluation of an expression of the module, threading the store: the
    parts of a literal are evaluated left to right, then the object is
    allocated. *)
Fixpoint eval (e : JsValue) (h : Heap) {struct e} : Val * Heap :=
  match e with
  | JStr s => (VStr s, h)
  | JBool b => (VBool b, h)
  | JImport x => (VImport x, h)
  | JArr es =>
      let '(vs, h1) :=
        (fix eval_list (es : list JsValue) (h : Heap) : list Val * Heap :=
           match es with
           | [] => ([], h)
           | e1 :: rest =>
               let '(v, h1) := eval e1 h in
               let '(vs, h2) := eval_list rest h1 in
               (v :: vs, h2)
           end) es h in
      alloc (CArr vs) h1
  | JObj ps =>
      let '(vs, h1) :=
        (fix eval_props (ps : list (string * JsValue)) (h : Heap)
           : list (string * Val) * Heap :=
           match ps with
           | [] => ([], h)
           | (k, e1) :: rest =>
               let '(v, h1) := eval e1 h in
               let '(vs, h2) := eval_props rest h1 in
               ((k, v) :: vs, h2)
           end) ps h in
      alloc (CObj vs) h1
  | JCall f args =>
      let '(vs, h1) :=
        (fix eval_list (es : list JsValue) (h : Heap) : list Val * Heap :=
           match es with
           | [] => ([], h)
           | e1 :: rest =>
               let '(v, h1) := eval e1 h in
               let '(vs, h2) := eval_list rest h1 in
               (v :: vs, h2)
           end) args h in
      alloc (CCall f vs) h1
  end.

(** The two list traversals of [eval], by name. *)
Fixpoint eval_list (es : list JsValue) (h : Heap) : list Val * Heap :=
  match es with
  | [] => ([], h)
  | e1 :: rest =>
      let '(v, h1) := eval e1 h in
      let '(vs, h2) := eval_list rest h1 in
      (v :: vs, h2)
  end.

Fixpoint eval_props (ps : list (string * JsValue)) (h : Heap)
  : list (string * Val) * Heap :=
  match ps with
  | [] => ([], h)
  | (k, e1) :: rest =>
      let '(v, h1) := eval e1 h in
      let '(vs, h2) := eval_props rest h1 in
      ((k, v) :: vs, h2)
  end.

(** Reading a value back out of the store, following references at most
    [fuel] deep. *)
Fixpoint reify (fuel : nat) (h : Heap) (v : Val) : option JsValue :=
  match fuel with
  | 0 => None
  | S n =>
      match v with
      | VStr s => Some (JStr s)
      | VBool b => Some (JBool b)
      | VImport x => Some (JImport x)
      | VRef l =>
          match nth_error h l with
          | Some (CArr vs) => option_map JArr (traverse (reify n h) vs)
          | Some (CObj ps) =>
              option_map JObj
                (traverse (fun kv => option_map (pair (fst kv)) (reify n h (snd kv))) ps)
          | Some (CCall f vs) => option_map (JCall f) (traverse (reify n h) vs)
          | None => None
          end
      end
  end.

(** Nesting depth of an expression. *)
Fixpoint depth (e : JsValue) : nat :=
  match e with
  | JStr _ | JBool _ | JImport _ => 0
  | JArr es => S (fold_right (fun x d => Nat.max (depth x) d) 0 es)
  | JObj ps =>
      S ((fix props (ps : list (string * JsValue)) : nat :=
            match ps with
            | [] => 0
            | (_, x) :: rest => Nat.max (depth x) (props rest)
            end) ps)
  | JCall _ args => S (fold_right (fun x d => Nat.max (depth x) d) 0 args)
  end.

Definition depth_list (es : list JsValue) : nat :=
  fold_right (fun x d => Nat.max (depth x) d) 0 es.

Fixpoint depth_props (ps : list (string * JsValue)) : nat :=
  match ps with
  | [] => 0
  | (_, x) :: rest => Nat.max (depth x) (depth_props rest)
  end.

(** What evaluation of [e] from store [h] achieves: the store grows by some
    cells [k], and the result reads back as [e] from the grown store and
    from every extension of it. *)
Definition evaluates (e : JsValue) : Prop :=
  forall h : Heap,
    exists k : Heap,
      snd (eval e h) = h ++ k
      /\ forall n k', depth e < n ->
           reify n (h ++ k ++ k') (fst (eval e h)) = Some e.

(** ** Scope of the module *)

(** The bindings an expression refers to, in evaluation order: the callee
    of a call before its arguments. *)
Fixpoint references (e : JsValue) : list string :=
  match e with
  | JStr _ | JBool _ => []
  | JArr es => flat_map references es
  | JObj ps =>
      (fix props (ps : list (string * JsValue)) : list string :=
         match ps with
         | [] => []
         | (_, x) :: rest => references x ++ props rest
         end) ps
  | JImport x => [x]
  | JCall f args => f :: flat_map references args
  end.

(** The local names the import declarations of a module bind. *)
Definition bindings (m : JsModule) : list string := map fst (imports m).

Definition in_scope (scope : list string) (x : string) : bool :=
  existsb (String.eqb x) scope.

(** Evaluation under a scope: as [eval], but a reference to a name that no
    import declaration binds is an error, raised where the name is reached.
    A call resolves its callee before it evaluates its arguments. *)
Fixpoint eval_scoped (scope : list string) (e : JsValue) (h : Heap) {struct e}
  : option (Val * Heap) :=
  match e with
  | JStr s => Some (VStr s, h)
  | JBool b => Some (VBool b, h)
  | JImport x => if in_scope scope x then Some (VImport x, h) else None
  | JArr es =>
      match
        (fix scoped_list (es : list JsValue) (h : Heap) : option (list Val * Heap) :=
           match es with
           | [] => Some ([], h)
           | e1 :: rest =>
               match eval_scoped scope e1 h with
               | None => None
               | Some (v, h1) =>
                   match scoped_list rest h1 with
                   | None => None
                   | Some (vs, h2) => Some (v :: vs, h2)
                   end
               end
           end) es h
      with
      | None => None
      | Some (vs, h1) => Some (alloc (CArr vs) h1)
      end
  | JObj ps =>
      match
        (fix scoped_props (ps : list (string * JsValue)) (h : Heap)
           : option (list (string * Val) * Heap) :=
           match ps with
           | [] => Some ([], h)
           | (k, e1) :: rest =>
               match eval_scoped scope e1 h with
               | None => None
               | Some (v, h1) =>
                   match scoped_props rest h1 with
                   | None => None
                   | Some (vs, h2) => Some ((k, v) :: vs, h2)
                   end
               end
           end) ps h
      with
      | None => None
      | Some (vs, h1) => Some (alloc (CObj vs) h1)
      end
  | JCall f args =>
      if in_scope scope f then
        match
          (fix scoped_list (es : list JsValue) (h : Heap) : option (list Val * Heap) :=
             match es with
             | [] => Some ([], h)
             | e1 :: rest =>
                 match eval_scoped scope e1 h with
                 | None => None
                 | Some (v, h1) =>
                     match scoped_list rest h1 with
                     | None => None
                     | Some (vs, h2) => Some (v :: vs, h2)
                     end
                 end
             end) args h
        with
        | None => None
        | Some (vs, h1) => Some (alloc (CCall f vs) h1)
        end
      else None
  end.

(** The two list traversals of [eval_scoped], by name. *)
Definition eval_scoped_list (scope : list string)
  : list JsValue -> Heap -> option (list Val * Heap) :=
  fix scoped_list (es : list JsValue) (h : Heap) : option (list Val * Heap) :=
    match es with
    | [] => Some ([], h)
    | e1 :: rest =>
        match eval_scoped scope e1 h with
        | None => None
        | Some (v, h1) =>
            match scoped_list rest h1 with
            | None => None
            | Some (vs, h2) => Some (v :: vs, h2)
            end
        end
    end.

Definition eval_scoped_props (scope : list string)
  : list (string * JsValue) -> Heap -> option (list (string * Val) * Heap) :=
  fix scoped_props (ps : list (string * JsValue)) (h : Heap)
    : option (list (string * Val) * Heap) :=
    match ps with
    | [] => Some ([], h)
    | (k, e1) :: rest =>
        match eval_scoped scope e1 h with
        | None => None
        | Some (v, h1) =>
            match scoped_props rest h1 with
            | None => None
            | Some (vs, h2) => Some ((k, v) :: vs, h2)
            end
        end
    end.

Fixpoint references_props (ps : list (string * JsValue)) : list string :=
  match ps with
  | [] => []
  | (_, x) :: rest => references x ++ references_props rest
  end.

(** Evaluation under [scope] succeeds on [e] exactly when every name [e]
    refers to is in scope, and then it is the evaluation [eval]. *)
Definition scoped_as_eval (scope : list string) (e : JsValue) : Prop :=
  forall h : Heap,
    eval_scoped scope e h
    = if forallb (in_scope scope) (references e) then Some (eval e h) else None.

(** ** Keys written twice *)

(** In JavaScript an object literal that writes a key twice keeps the last
    value.  [assoc] above reads the first; this is the lookup the language
    performs. *)
Fixpoint assoc_last (k : string) (ps : list (string * JsValue)) : option JsValue :=
  match ps with
  | [] => None
  | (k', v) :: rest =>
      match assoc_last k rest with
      | Some w => Some w
      | None => if String.eqb k k' then Some v else None
      end
  end.

Definition prop_last (k : string) (v : JsValue) : option JsValue :=
  match v with
  | JObj ps => assoc_last k ps
  | _ => None
  end.

Fixpoint path_last (ks : list string) (v : JsValue) : option JsValue :=
  match ks with
  | [] => Some v
  | k :: rest => w <- prop_last k v ;; path_last rest w
  end.

(** No object literal anywhere in [v] writes a key twice. *)
Fixpoint keys_distinct (v : JsValue) : bool :=
  match v with
  | JStr _ | JBool _ | JImport _ => true
  | JArr es => forallb keys_distinct es
  | JObj ps =>
      distinct (map fst ps)
      && (fix all (ps : list (string * JsValue)) : bool :=
            match ps with
            | [] => true
            | (_, x) :: rest => keys_distinct x && all rest
            end) ps
  | JCall _ args => forallb keys_distinct args
  end.

Fixpoint keys_distinct_props (ps : list (string * JsValue)) : bool :=
  match ps with
  | [] => true
  | (_, x) :: rest => keys_distinct x && keys_distinct_props rest
  end.

(** * Properties *)

(** ** The two revisions, field by field *)

Lemma sidebar_1 :
  sidebar astro_config_1 = Some (sidebar_entries astro_config_1)
  /\ List.length (sidebar_entries astro_config_1) = 3.
Proof. split; reflexivity. Qed.

Lemma sidebar_2 :
  sidebar astro_config_2 = Some (sidebar_entries astro_config_2)
  /\ List.length (sidebar_entries astro_config_2) = 1.
Proof. split; reflexivity. Qed.

(** C9: the two revisions of the configuration declare the same site URL,
    base path, markdown settings (highlighter, excluded languages, plugin
    pipeline and its options), theme title and social links; all they
    declare apart from the sidebar is equal, and the sidebars differ. *)
Theorem revisions_differ_in_sidebar_only :
  imports astro_config_1 = imports astro_config_2
  /\ site astro_config_1 = Some "https://j-ochmann.github.io"
  /\ site astro_config_2 = site astro_config_1
  /\ base astro_config_1 = Some "/astro"
  /\ base astro_config_2 = base astro_config_1
  /\ (exists md, markdown astro_config_1 = Some md
                 /\ markdown astro_config_2 = Some md)
  /\ syntax_highlight_type astro_config_2 = syntax_highlight_type astro_config_1
  /\ excludeLangs astro_config_2 = excludeLangs astro_config_1
  /\ (exists ps, rehypePlugins astro_config_1 = Some ps
                 /\ rehypePlugins astro_config_2 = Some ps)
  /\ title astro_config_1 = Some "DevBook"
  /\ title astro_config_2 = title astro_config_1
  /\ (exists so, social astro_config_1 = Some so
                 /\ social astro_config_2 = Some so)
  /\ (exists rest, all_but_sidebar astro_config_1 = Some rest
                   /\ all_but_sidebar astro_config_2 = Some rest)
  /\ sidebar astro_config_1 <> sidebar astro_config_2.
Proof.
  repeat split; try reflexivity;
    try (eexists; split; reflexivity).
  intro H. apply (f_equal (option_map (@List.length JsValue))) in H.
  vm_compute in H. discriminate H.
Qed.

(** C10: every top-level sidebar entry of both revisions carries
    [collapsed: true]. *)
Theorem every_section_collapsed :
  sidebar astro_config_1 = Some (sidebar_entries astro_config_1)
  /\ sidebar astro_config_2 = Some (sidebar_entries astro_config_2)
  /\ Forall (fun e => collapsed e = Some true) (sidebar_entries astro_config_1)
  /\ Forall (fun e => collapsed e = Some true) (sidebar_entries astro_config_2).
Proof.
  repeat split; try reflexivity; repeat constructor.
Qed.

(** ** Shapes of the sidebar entries *)

(** C1 as stated fails: not every entry of the first revision's sidebar has
    exactly one shape.  Its [Design Patterns] entry carries both a [link]
    and [items], a link entry and a group at once. *)
Lemma design_patterns_entry_has_two_shapes :
  ~ (forall e, In e (sidebar_entries astro_config_1) -> shape_count e = 1).
Proof.
  intro H.
  specialize (H (nth 1 (sidebar_entries astro_config_1) (JBool false))).
  vm_compute in H.
  assert (C : 2 = 1) by (apply H; right; left; reflexivity).
  discriminate C.
Qed.

(** C1: the claim holds of every sidebar entry but one.  The shape counts
    are 1, 2, 1 in the first revision and 1 in the second: the first
    revision's [Design Patterns] entry, with the keys [label], [link],
    [collapsed] and [items], is a link entry and a group at once, and is the
    only entry that is not of a single shape.  The second revision declares
    the same section as an autogeneration directive, of a single shape. *)
Theorem design_patterns_entry_defect :
  map shape_count (sidebar_entries astro_config_1) = [1; 2; 1]
  /\ map shape_count (sidebar_entries astro_config_2) = [1]
  /\ map single_shape (sidebar_entries astro_config_1) = [true; false; true]
  /\ map single_shape (sidebar_entries astro_config_2) = [true]
  /\ map (prop "label") (sidebar_entries astro_config_1)
     = [ Some (JStr "Quick Reference"); Some (JStr "Design Patterns");
         Some (JStr "External Resources") ]
  /\ map (prop "label") (sidebar_entries astro_config_2)
     = [ Some (JStr "Design Patterns") ]
  /\ (let e := nth 1 (sidebar_entries astro_config_1) (JBool false) in
      keys e = ["label"; "link"; "collapsed"; "items"]
      /\ is_link_entry e = true
      /\ is_group_entry e = true
      /\ is_autogen_entry e = false
      /\ has_key "label" e = true
      /\ entry_keys_ok e = true
      /\ forallb is_plain_link (group_items e) = true).
Proof.
  repeat split; reflexivity.
Qed.

(** ** Site settings and the path of a page *)

(** C2: under a configuration whose base is [/astro], the page of slug
    [design_patterns/behavioral] is served at
    [/astro/design_patterns/behavioral/], and every slug at the base, a
    slash, the slug and a trailing slash. *)
Theorem behavioral_page_path :
  forall m : JsModule,
    base m = Some "/astro" ->
    served_at m "design_patterns/behavioral"
      = Some "/astro/design_patterns/behavioral/"
    /\ forall slug, served_at m slug = Some ("/astro" ++ "/" ++ slug ++ "/")%string.
Proof.
  intros m H. unfold served_at. rewrite H. simpl. split; reflexivity.
Qed.

(** Witness for [behavioral_page_path]: the first revision, whose sidebar
    declares the slug. *)
Lemma behavioral_page_path_witness :
  base astro_config_1 = Some "/astro"
  /\ In (RefPage "design_patterns/behavioral")
        (flat_map nav_refs (sidebar_entries astro_config_1))
  /\ served_at astro_config_1 "design_patterns/behavioral"
      = Some "/astro/design_patterns/behavioral/".
Proof.
  split; [ reflexivity | ].
  split; [ vm_compute; tauto | ].
  apply (behavioral_page_path astro_config_1). reflexivity.
Defined.

(** ** Markdown settings and the diagram plugin *)

Lemma highlights_excluded :
  forall (excluded : list string) (lang : string),
    In lang excluded <-> highlights excluded lang = false.
Proof.
  intros excluded lang. unfold highlights.
  rewrite negb_false_iff, existsb_exists. split.
  - intro H. exists lang. split; [ assumption | apply String.eqb_refl ].
  - intros [x [I E]]. apply String.eqb_eq in E. now subst.
Qed.

(** C5: in both revisions the options handed to the diagram plugin are the
    record written in the source, literals only: its theme name is
    [default], one of the plugin's themes, and its [dark] flag is the
    boolean [false]. *)
Theorem mermaid_options_passed_through :
  forall m, In m [astro_config_1; astro_config_2] ->
    exists o,
      mermaid_options m = Some o
      /\ o = JObj [ ("mermaidConfig", JObj [ ("theme", JStr "default") ]);
                    ("dark", JBool false) ]
      /\ is_literal o = true
      /\ (exists t, path ["mermaidConfig"; "theme"] o = Some (JStr t)
                    /\ t = "default" /\ is_mermaid_theme t = true)
      /\ (exists b, prop "dark" o = Some (JBool b) /\ b = false)
      /\ keys o = ["mermaidConfig"; "dark"].
Proof.
  intros m [H | [H | []]]; subst m;
    (eexists; split; [ reflexivity | ]);
    (split; [ reflexivity | ]);
    (split; [ reflexivity | ]);
    (split; [ exists "default"; repeat split | ]);
    (split; [ exists false; repeat split | reflexivity ]).
Qed.

(** Witness for [mermaid_options_passed_through]: the first revision. *)
Lemma mermaid_options_passed_through_witness :
  In astro_config_1 [astro_config_1; astro_config_2]
  /\ exists o, mermaid_options astro_config_1 = Some o
               /\ prop "dark" o = Some (JBool false).
Proof.
  split; [ left; reflexivity | ].
  destruct (mermaid_options_passed_through astro_config_1 (or_introl eq_refl))
    as [o [H1 [H2 _]]].
  exists o. split; [ exact H1 | ]. rewrite H2. reflexivity.
Defined.

(** C6: in both revisions the markdown settings select the engine [shiki],
    exclude exactly the language tag [mermaid] from highlighting, and
    declare one pipeline entry, the pair of the plugin [rehypeMermaid] and an
    options record; every excluded tag is skipped by the highlighter, and
    no other tag is. *)
Theorem markdown_settings :
  forall m, In m [astro_config_1; astro_config_2] ->
    syntax_highlight_type m = Some Shiki
    /\ (exists excluded,
          excludeLangs m = Some excluded
          /\ (forall lang, In lang excluded <-> lang = "mermaid")
          /\ (forall lang, In lang excluded -> highlights excluded lang = false)
          /\ (forall lang, highlights excluded lang = false -> lang = "mermaid"))
    /\ (exists opts,
          rehypePlugins m = Some [("rehypeMermaid", JObj opts)]
          /\ (md <- markdown m ;; prop "rehypePlugins" md)
             = Some (JArr [JArr [JImport "rehypeMermaid"; JObj opts]])).
Proof.
  assert (E : forall excluded : list string, excluded = ["mermaid"] ->
            (forall lang, In lang excluded <-> lang = "mermaid")
            /\ (forall lang, In lang excluded -> highlights excluded lang = false)
            /\ (forall lang, highlights excluded lang = false -> lang = "mermaid")).
  { intros excluded ->.
    assert (I : forall lang, In lang ["mermaid"] <-> lang = "mermaid").
    { intro lang. simpl. split; [ intros [H | []]; now subst | now left ]. }
    split; [ exact I | split ].
    - intros lang H. now apply highlights_excluded.
    - intros lang H. apply I. now apply highlights_excluded. }
  intros m [H | [H | []]]; subst m;
    (split; [ reflexivity | ]);
    (split; [ exists ["mermaid"]; split; [ reflexivity | now apply E ] | ]);
    (eexists; split; reflexivity).
Qed.

(** Witness for [markdown_settings]: the second revision. *)
Lemma markdown_settings_witness :
  In astro_config_2 [astro_config_1; astro_config_2]
  /\ syntax_highlight_type astro_config_2 = Some Shiki.
Proof.
  split; [ right; left; reflexivity | ].
  apply (markdown_settings astro_config_2). right. left. reflexivity.
Defined.

(** ** Validation against the expected shape *)

Lemma distinct_NoDup : forall l : list string, distinct l = true -> NoDup l.
Proof.
  induction l as [| x l IH]; simpl; intro H.
  - constructor.
  - apply andb_prop in H. destruct H as [H1 H2].
    constructor; [ | now apply IH ].
    intro I. apply negb_true_iff in H1.
    assert (E : existsb (String.eqb x) l = true).
    { apply existsb_exists. exists x. split; [ assumption | apply String.eqb_refl ]. }
    rewrite E in H1. discriminate H1.
Qed.

(** What validation of an object guarantees: no key outside the fields, no
    key twice, every required field present, every present field of its
    declared shape. *)
Lemma validate_object :
  forall (fields : list (string * (bool * Schema))) (ps : list (string * JsValue)),
    validate (SObject fields) (JObj ps) = true ->
    (forall k, In k (map fst ps) -> In k (map fst fields))
    /\ NoDup (map fst ps)
    /\ (forall k s, In (k, (true, s)) fields ->
          exists w, assoc k ps = Some w /\ validate s w = true)
    /\ (forall k req s w, In (k, (req, s)) fields -> assoc k ps = Some w ->
          validate s w = true).
Proof.
  intros fields ps H. simpl in H.
  apply andb_prop in H. destruct H as [H H3].
  apply andb_prop in H. destruct H as [H1 H2].
  split; [ | split; [ now apply distinct_NoDup | ] ].
  - intros k Hk. rewrite forallb_forall in H1. specialize (H1 k Hk).
    apply existsb_exists in H1. destruct H1 as [f [I E]].
    apply String.eqb_eq in E. subst k. now apply in_map.
  - clear H1 H2.
    induction fields as [| [k0 [req0 s0]] fields IH].
    + split; intros; contradiction.
    + apply andb_prop in H3. destruct H3 as [Hh Ht].
      specialize (IH Ht). destruct IH as [IH1 IH2].
      split.
      * intros k s [E | I]; [ | now apply IH1 ].
        inversion E; subst. destruct (assoc k ps) as [w |]; [ | discriminate Hh ].
        now exists w.
      * intros k req s w [E | I] A; [ | now apply (IH2 k req s w) ].
        inversion E; subst. rewrite A in Hh. exact Hh.
Qed.

(** C7: the first revision does not have the shape of the table of
    configuration keys.  Its site is a well-formed URL, its base a
    well-formed path and its configuration object holds exactly the keys
    [site], [base], [markdown] and [integrations]; but its second sidebar
    entry, a group, carries the key [link], which no entry shape admits
    beside [items], and validation fails there and nowhere else: without
    that key the entry validates, and so does the whole configuration.  The
    second revision validates as it is. *)
Theorem first_revision_fails_validation :
  validate config_schema (default_export astro_config_1) = false
  /\ map (validate sidebar_entry_schema) (sidebar_entries astro_config_1)
     = [true; false; true]
  /\ keys (nth 1 (sidebar_entries astro_config_1) (JBool false))
     = ["label"; "link"; "collapsed"; "items"]
  /\ validate group_entry_schema
       (without_key "link" (nth 1 (sidebar_entries astro_config_1) (JBool false)))
     = true
  /\ with_sidebar (sidebar_entries astro_config_1) astro_config_1
     = Some (default_export astro_config_1)
  /\ option_map (validate config_schema)
       (with_sidebar
          (map (without_key "link") (sidebar_entries astro_config_1))
          astro_config_1)
     = Some true
  /\ validate config_schema (default_export astro_config_2) = true
  /\ map (validate sidebar_entry_schema) (sidebar_entries astro_config_2) = [true]
  /\ option_map keys (config_object astro_config_1)
     = Some ["site"; "base"; "markdown"; "integrations"]
  /\ option_map keys (config_object astro_config_2)
     = Some ["site"; "base"; "markdown"; "integrations"]
  /\ site astro_config_1 = Some "https://j-ochmann.github.io"
  /\ site astro_config_2 = Some "https://j-ochmann.github.io"
  /\ well_formed_url "https://j-ochmann.github.io" = true
  /\ base astro_config_1 = Some "/astro"
  /\ base astro_config_2 = Some "/astro"
  /\ well_formed_path "/astro" = true.
Proof.
  repeat split; reflexivity.
Qed.

(** ** Generated navigation *)

Lemma filename_le_iff :
  forall a b : string, filename_le a b <-> a = b \/ String_as_OT.lt a b.
Proof.
  intros a b. unfold filename_le, String.leb.
  destruct (String.compare a b) eqn:C.
  - split; [ intros _ | reflexivity ].
    left. now apply String.compare_eq_iff.
  - split; [ intros _ | reflexivity ].
    right. now apply String_as_OT.cmp_lt.
  - split; [ discriminate | ].
    intros [E | L].
    + apply String_as_OT.cmp_eq in E. unfold String_as_OT.cmp in E. congruence.
    + apply String_as_OT.cmp_lt in L. unfold String_as_OT.cmp in L. congruence.
Qed.

Lemma filename_le_trans : Transitive filename_le.
Proof.
  intros a b c H1 H2.
  apply filename_le_iff in H1. apply filename_le_iff in H2.
  apply filename_le_iff.
  destruct H1 as [-> | H1]; [ exact H2 | ].
  destruct H2 as [<- | H2]; [ now right | ].
  right. exact (String_as_OT.lt_trans _ _ _ H1 H2).
Qed.

Lemma pages_of_map_Page : forall l : list string, pages_of (map Page l) = l.
Proof.
  induction l as [| x l IH]; simpl; [ reflexivity | now rewrite IH ].
Qed.

(** The items generated for a directory: the files under it, each once, in
    filename order. *)
Lemma autogenerate_items_spec :
  forall (content : Content) (d : string),
    Permutation (autogenerate_items content d) (filter (under d) content)
    /\ StronglySorted filename_le (autogenerate_items content d).
Proof.
  intros content d. unfold autogenerate_items. split.
  - symmetry. apply FilenameSort.Permuted_sort.
  - apply (FilenameSort.StronglySorted_sort (filter (under d) content)).
    exact filename_le_trans.
Qed.

(** An entry that refers to directory [d] and nothing else generates the
    items of [d], each a page. *)
Lemma directive_navigation_items :
  forall (content : Content) (e : JsValue) (d : string),
    nav_refs e = [RefDir d] ->
    navigation content [e] = map Page (autogenerate_items content d).
Proof.
  intros content e d H. unfold navigation. simpl.
  rewrite app_nil_r, H. simpl. now rewrite app_nil_r.
Qed.

(** The same for an entry that refers to directory [d] and nothing else. *)
Lemma directive_navigation :
  forall (content : Content) (e : JsValue) (d : string),
    nav_refs e = [RefDir d] ->
    Permutation (pages_of (navigation content [e])) (filter (under d) content)
    /\ StronglySorted filename_le (pages_of (navigation content [e])).
Proof.
  intros content e d H.
  rewrite (directive_navigation_items content e d H), pages_of_map_Page.
  apply autogenerate_items_spec.
Qed.

(** C3: for every sidebar entry of either revision that carries an
    autogeneration directive for a directory, the generated navigation
    consists of page items only, the content files under that directory,
    each exactly once and in filename order; it has as many items as there
    are such files, none when there is none. *)
Theorem autogenerate_one_item_per_file :
  forall (content : Content) (e : JsValue) (d : string),
    In e (sidebar_entries astro_config_1 ++ sidebar_entries astro_config_2) ->
    autogenerate_directory e = Some d ->
    exists items : list string,
      navigation content [e] = map Page items
      /\ Permutation items (filter (under d) content)
      /\ StronglySorted filename_le items
      /\ List.length (navigation content [e])
         = List.length (filter (under d) content).
Proof.
  intros content e d I A.
  assert (R : nav_refs e = [RefDir d]).
  { cbv [sidebar_entries app] in I. vm_compute in I.
    repeat (destruct I as [I | I];
            [ subst e; vm_compute in A; try discriminate A;
              injection A as <-; reflexivity | ]).
    contradiction. }
  exists (autogenerate_items content d).
  destruct (autogenerate_items_spec content d) as [P S].
  split; [ now apply directive_navigation_items | ].
  split; [ exact P | split; [ exact S | ] ].
  rewrite (directive_navigation_items content e d R), length_map.
  now apply Permutation_length.
Qed.

(** Witness for [autogenerate_one_item_per_file]: the [Quick Reference]
    entry over a content collection with three files under its directory,
    out of order, and files elsewhere. *)
Lemma autogenerate_one_item_per_file_witness :
  let content := [ "quick_reference/git"; "design_patterns/behavioral";
                   "quick_reference/bash"; "quick_reference_old/vim";
                   "quick_reference/css" ] in
  let e := nth 0 (sidebar_entries astro_config_1) (JBool false) in
  In e (sidebar_entries astro_config_1 ++ sidebar_entries astro_config_2)
  /\ autogenerate_directory e = Some "quick_reference"
  /\ navigation content [e]
     = [ Page "quick_reference/bash"; Page "quick_reference/css";
         Page "quick_reference/git" ]
  /\ navigation ["design_patterns/behavioral"] [e] = []
  /\ exists items : list string,
       navigation content [e] = map Page items
       /\ Permutation items (filter (under "quick_reference") content)
       /\ StronglySorted filename_le items
       /\ List.length (navigation content [e])
          = List.length (filter (under "quick_reference") content).
Proof.
  cbv zeta.
  split; [ left; reflexivity | ].
  split; [ reflexivity | split; [ reflexivity | split; [ reflexivity | ] ] ].
  apply (autogenerate_one_item_per_file
           [ "quick_reference/git"; "design_patterns/behavioral";
             "quick_reference/bash"; "quick_reference_old/vim";
             "quick_reference/css" ]
           (nth 0 (sidebar_entries astro_config_1) (JBool false))
           "quick_reference").
  - left. reflexivity.
  - reflexivity.
Defined.

(** ** Pages of the content collection *)

Lemma page_exists_In :
  forall (content : Content) (s : string),
    page_exists content s = true <-> In s content.
Proof.
  intros content s. unfold page_exists. rewrite existsb_exists. split.
  - intros [x [I E]]. apply String.eqb_eq in E. now subst.
  - intro I. exists s. split; [ assumption | apply String.eqb_refl ].
Qed.

(** ** Evaluation and the store *)

Section JsValue_induction.

Variable P : JsValue -> Prop.
Hypothesis HStr : forall s, P (JStr s).
Hypothesis HBool : forall b, P (JBool b).
Hypothesis HArr : forall es, Forall P es -> P (JArr es).
Hypothesis HObj : forall ps, Forall (fun kv => P (snd kv)) ps -> P (JObj ps).
Hypothesis HImport : forall x, P (JImport x).
Hypothesis HCall : forall f args, Forall P args -> P (JCall f args).

Fixpoint JsValue_nested_ind (v : JsValue) : P v :=
  match v with
  | JStr s => HStr s
  | JBool b => HBool b
  | JArr es =>
      HArr es
        ((fix all (l : list JsValue) : Forall P l :=
            match l with
            | [] => Forall_nil P
            | x :: r => Forall_cons x (JsValue_nested_ind x) (all r)
            end) es)
  | JObj ps =>
      HObj ps
        ((fix all (l : list (string * JsValue))
            : Forall (fun kv => P (snd kv)) l :=
            match l with
            | [] => Forall_nil _
            | kv :: r => Forall_cons kv (JsValue_nested_ind (snd kv)) (all r)
            end) ps)
  | JImport x => HImport x
  | JCall f args =>
      HCall f args
        ((fix all (l : list JsValue) : Forall P l :=
            match l with
            | [] => Forall_nil P
            | x :: r => Forall_cons x (JsValue_nested_ind x) (all r)
            end) args)
  end.

End JsValue_induction.

Lemma eval_JArr :
  forall es h,
    eval (JArr es) h
    = alloc (CArr (fst (eval_list es h))) (snd (eval_list es h)).
Proof.
  intros es h. change (eval (JArr es) h)
    with (let '(vs, h1) := eval_list es h in alloc (CArr vs) h1).
  now destruct (eval_list es h).
Qed.

Lemma eval_JCall :
  forall f es h,
    eval (JCall f es) h
    = alloc (CCall f (fst (eval_list es h))) (snd (eval_list es h)).
Proof.
  intros f es h. change (eval (JCall f es) h)
    with (let '(vs, h1) := eval_list es h in alloc (CCall f vs) h1).
  now destruct (eval_list es h).
Qed.

Lemma eval_JObj :
  forall ps h,
    eval (JObj ps) h
    = alloc (CObj (fst (eval_props ps h))) (snd (eval_props ps h)).
Proof.
  intros ps h. change (eval (JObj ps) h)
    with (let '(vs, h1) := eval_props ps h in alloc (CObj vs) h1).
  now destruct (eval_props ps h).
Qed.

Lemma eval_list_cons :
  forall x r h,
    eval_list (x :: r) h
    = (fst (eval x h) :: fst (eval_list r (snd (eval x h))),
       snd (eval_list r (snd (eval x h)))).
Proof.
  intros x r h.
  change (eval_list (x :: r) h)
    with (let '(v, h1) := eval x h in
          let '(vs, h2) := eval_list r h1 in (v :: vs, h2)).
  destruct (eval x h) as [v h1]. simpl.
  now destruct (eval_list r h1).
Qed.

Lemma eval_props_cons :
  forall k x r h,
    eval_props ((k, x) :: r) h
    = ((k, fst (eval x h)) :: fst (eval_props r (snd (eval x h))),
       snd (eval_props r (snd (eval x h)))).
Proof.
  intros k x r h.
  change (eval_props ((k, x) :: r) h)
    with (let '(v, h1) := eval x h in
          let '(vs, h2) := eval_props r h1 in ((k, v) :: vs, h2)).
  destruct (eval x h) as [v h1]. simpl.
  now destruct (eval_props r h1).
Qed.

Lemma eval_list_evaluates :
  forall es, Forall evaluates es ->
  forall h : Heap,
    exists k : Heap,
      snd (eval_list es h) = h ++ k
      /\ forall n k', depth_list es < n ->
           traverse (reify n (h ++ k ++ k')) (fst (eval_list es h)) = Some es.
Proof.
  intros es F. induction F as [| x r Hx _ IH]; intro h.
  - exists []. split; [ simpl; now rewrite app_nil_r | reflexivity ].
  - rewrite eval_list_cons. simpl fst. simpl snd.
    destruct (Hx h) as [k1 [E1 R1]]. rewrite E1.
    destruct (IH (h ++ k1)) as [k2 [E2 R2]]. rewrite E2.
    exists (k1 ++ k2). split; [ now rewrite app_assoc | ].
    intros n k' D. simpl in D.
    simpl traverse.
    replace (h ++ (k1 ++ k2) ++ k') with (h ++ k1 ++ (k2 ++ k'))
      by now rewrite !app_assoc.
    rewrite R1 by lia. simpl.
    replace (h ++ k1 ++ k2 ++ k') with ((h ++ k1) ++ k2 ++ k')
      by now rewrite !app_assoc.
    rewrite R2 by lia. reflexivity.
Qed.

Lemma eval_props_evaluates :
  forall ps, Forall (fun kv => evaluates (snd kv)) ps ->
  forall h : Heap,
    exists k : Heap,
      snd (eval_props ps h) = h ++ k
      /\ forall n k', depth_props ps < n ->
           traverse (fun kv => option_map (pair (fst kv))
                                 (reify n (h ++ k ++ k') (snd kv)))
                    (fst (eval_props ps h)) = Some ps.
Proof.
  intros ps F. induction F as [| [key x] r Hx _ IH]; intro h.
  - exists []. split; [ simpl; now rewrite app_nil_r | reflexivity ].
  - rewrite eval_props_cons. simpl fst. simpl snd. simpl in Hx.
    destruct (Hx h) as [k1 [E1 R1]]. rewrite E1.
    destruct (IH (h ++ k1)) as [k2 [E2 R2]]. rewrite E2.
    exists (k1 ++ k2). split; [ now rewrite app_assoc | ].
    intros n k' D. simpl in D.
    simpl traverse.
    replace (h ++ (k1 ++ k2) ++ k') with (h ++ k1 ++ (k2 ++ k'))
      by now rewrite !app_assoc.
    rewrite R1 by lia. simpl.
    replace (h ++ k1 ++ k2 ++ k') with ((h ++ k1) ++ k2 ++ k')
      by now rewrite !app_assoc.
    rewrite R2 by lia. reflexivity.
Qed.

Lemma nth_error_fresh :
  forall (h k' : Heap) (c : Cell),
    nth_error (h ++ [c] ++ k') (List.length h) = Some c.
Proof.
  intros h k' c. rewrite nth_error_app2 by lia.
  now rewrite Nat.sub_diag.
Qed.

(** Every expression evaluates: whatever the store, the result reads back
    as the expression itself. *)
Lemma eval_evaluates : forall e : JsValue, evaluates e.
Proof.
  induction e using JsValue_nested_ind; intro h.
  - exists []. split; [ simpl; now rewrite app_nil_r | ].
    intros [| n] k' D; [ lia | reflexivity ].
  - exists []. split; [ simpl; now rewrite app_nil_r | ].
    intros [| n] k' D; [ lia | reflexivity ].
  - rewrite eval_JArr.
    destruct (eval_list_evaluates es H h) as [k [E R]].
    unfold alloc. simpl fst. simpl snd. rewrite E.
    exists (k ++ [CArr (fst (eval_list es h))]).
    split; [ now rewrite app_assoc | ].
    intros [| n] k' D; [ lia | ]. simpl in D.
    simpl reify.
    replace (h ++ (k ++ [CArr (fst (eval_list es h))]) ++ k')
      with ((h ++ k) ++ [CArr (fst (eval_list es h))] ++ k')
      by now rewrite !app_assoc.
    rewrite nth_error_fresh.
    replace ((h ++ k) ++ [CArr (fst (eval_list es h))] ++ k')
      with (h ++ k ++ ([CArr (fst (eval_list es h))] ++ k'))
      by now rewrite !app_assoc.
    rewrite R by (unfold depth_list; lia). reflexivity.
  - rewrite eval_JObj.
    destruct (eval_props_evaluates ps H h) as [k [E R]].
    unfold alloc. simpl fst. simpl snd. rewrite E.
    exists (k ++ [CObj (fst (eval_props ps h))]).
    split; [ now rewrite app_assoc | ].
    intros [| n] k' D; [ lia | ].
    change (depth (JObj ps)) with (S (depth_props ps)) in D.
    simpl reify.
    replace (h ++ (k ++ [CObj (fst (eval_props ps h))]) ++ k')
      with ((h ++ k) ++ [CObj (fst (eval_props ps h))] ++ k')
      by now rewrite !app_assoc.
    rewrite nth_error_fresh.
    replace ((h ++ k) ++ [CObj (fst (eval_props ps h))] ++ k')
      with (h ++ k ++ ([CObj (fst (eval_props ps h))] ++ k'))
      by now rewrite !app_assoc.
    rewrite R by lia. reflexivity.
  - exists []. split; [ simpl; now rewrite app_nil_r | ].
    intros [| n] k' D; [ lia | reflexivity ].
  - rewrite eval_JCall.
    destruct (eval_list_evaluates args H h) as [k [E R]].
    unfold alloc. simpl fst. simpl snd. rewrite E.
    exists (k ++ [CCall f (fst (eval_list args h))]).
    split; [ now rewrite app_assoc | ].
    intros [| n] k' D; [ lia | ]. simpl in D.
    simpl reify.
    replace (h ++ (k ++ [CCall f (fst (eval_list args h))]) ++ k')
      with ((h ++ k) ++ [CCall f (fst (eval_list args h))] ++ k')
      by now rewrite !app_assoc.
    rewrite nth_error_fresh.
    replace ((h ++ k) ++ [CCall f (fst (eval_list args h))] ++ k')
      with (h ++ k ++ ([CCall f (fst (eval_list args h))] ++ k'))
      by now rewrite !app_assoc.
    rewrite R by (unfold depth_list; lia). reflexivity.
Qed.

(** ** Scope *)

Lemma eval_scoped_list_spec :
  forall (scope : list string) (es : list JsValue),
    Forall (scoped_as_eval scope) es ->
    forall h : Heap,
      eval_scoped_list scope es h
      = if forallb (in_scope scope) (flat_map references es)
        then Some (eval_list es h) else None.
Proof.
  intros scope es F. induction F as [| x r Hx _ IH]; intro h.
  - reflexivity.
  - change (eval_scoped_list scope (x :: r) h)
      with (match eval_scoped scope x h with
            | None => None
            | Some (v, h1) =>
                match eval_scoped_list scope r h1 with
                | None => None
                | Some (vs, h2) => Some (v :: vs, h2)
                end
            end).
    rewrite Hx, eval_list_cons. simpl flat_map. rewrite forallb_app.
    destruct (forallb (in_scope scope) (references x)); [ | reflexivity ].
    destruct (eval x h) as [v h1]. rewrite IH. simpl.
    destruct (forallb (in_scope scope) (flat_map references r)); [ | reflexivity ].
    now destruct (eval_list r h1).
Qed.

Lemma eval_scoped_props_spec :
  forall (scope : list string) (ps : list (string * JsValue)),
    Forall (fun kv => scoped_as_eval scope (snd kv)) ps ->
    forall h : Heap,
      eval_scoped_props scope ps h
      = if forallb (in_scope scope) (references_props ps)
        then Some (eval_props ps h) else None.
Proof.
  intros scope ps F. induction F as [| [k x] r Hx _ IH]; intro h.
  - reflexivity.
  - change (eval_scoped_props scope ((k, x) :: r) h)
      with (match eval_scoped scope x h with
            | None => None
            | Some (v, h1) =>
                match eval_scoped_props scope r h1 with
                | None => None
                | Some (vs, h2) => Some ((k, v) :: vs, h2)
                end
            end).
    simpl in Hx. rewrite Hx, eval_props_cons.
    simpl references_props. rewrite forallb_app.
    destruct (forallb (in_scope scope) (references x)); [ | reflexivity ].
    destruct (eval x h) as [v h1]. rewrite IH. simpl.
    destruct (forallb (in_scope scope) (references_props r)); [ | reflexivity ].
    now destruct (eval_props r h1).
Qed.

Lemma eval_scoped_spec :
  forall (scope : list string) (e : JsValue), scoped_as_eval scope e.
Proof.
  intro scope. induction e using JsValue_nested_ind; intro h.
  - reflexivity.
  - reflexivity.
  - change (eval_scoped scope (JArr es) h)
      with (match eval_scoped_list scope es h with
            | None => None
            | Some (vs, h1) => Some (alloc (CArr vs) h1)
            end).
    rewrite (eval_scoped_list_spec scope es H), eval_JArr.
    simpl references.
    destruct (forallb (in_scope scope) (flat_map references es)); [ | reflexivity ].
    now destruct (eval_list es h).
  - change (eval_scoped scope (JObj ps) h)
      with (match eval_scoped_props scope ps h with
            | None => None
            | Some (vs, h1) => Some (alloc (CObj vs) h1)
            end).
    rewrite (eval_scoped_props_spec scope ps H), eval_JObj.
    change (references (JObj ps)) with (references_props ps).
    destruct (forallb (in_scope scope) (references_props ps)); [ | reflexivity ].
    now destruct (eval_props ps h).
  - simpl. rewrite andb_true_r. now destruct (in_scope scope x).
  - change (eval_scoped scope (JCall f args) h)
      with (if in_scope scope f then
              match eval_scoped_list scope args h with
              | None => None
              | Some (vs, h1) => Some (alloc (CCall f vs) h1)
              end
            else None).
    rewrite (eval_scoped_list_spec scope args H), eval_JCall.
    simpl references. simpl forallb.
    destruct (in_scope scope f); [ | reflexivity ]. simpl.
    destruct (forallb (in_scope scope) (flat_map references args)); [ | reflexivity ].
    now destruct (eval_list args h).
Qed.

Lemma in_scope_In :
  forall (scope : list string) (x : string),
    in_scope scope x = true <-> In x scope.
Proof.
  intros scope x. unfold in_scope. rewrite existsb_exists. split.
  - intros [y [I E]]. apply String.eqb_eq in E. now subst.
  - intro I. exists x. split; [ assumption | apply String.eqb_refl ].
Qed.

Lemma references_of_revisions :
  forall m, In m [astro_config_1; astro_config_2] ->
    references (default_export m) = ["defineConfig"; "rehypeMermaid"; "starlight"]
    /\ bindings m = ["defineConfig"; "starlight"; "rehypeMermaid"].
Proof.
  intros m [H | [H | []]]; subst m; split; reflexivity.
Qed.

(** X1: the module refers to the three names its import declarations bind
    and to no other.  Under its own imports, and under every scope that
    holds them, it evaluates without a reference error, to what [eval]
    gives; under a scope that lacks any one of them, evaluation fails. *)
Theorem module_scope :
  forall m, In m [astro_config_1; astro_config_2] ->
  forall (scope : list string) (h : Heap),
    NoDup (bindings m)
    /\ (forall x, In x (references (default_export m)) <-> In x (bindings m))
    /\ eval_scoped (bindings m) (default_export m) h
       = Some (eval (default_export m) h)
    /\ (incl (bindings m) scope ->
        eval_scoped scope (default_export m) h = Some (eval (default_export m) h))
    /\ (forall b, In b (bindings m) -> ~ In b scope ->
        eval_scoped scope (default_export m) h = None).
Proof.
  intros m Hm scope h.
  destruct (references_of_revisions m Hm) as [R B].
  assert (S3 : forall sc, incl (bindings m) sc ->
            eval_scoped sc (default_export m) h = Some (eval (default_export m) h)).
  { intros sc I. rewrite eval_scoped_spec, R. rewrite B in I.
    assert (A : forall x, In x ["defineConfig"; "starlight"; "rehypeMermaid"] ->
                in_scope sc x = true).
    { intros x Hx. apply in_scope_In. now apply I. }
    simpl forallb.
    rewrite !A by (simpl; tauto). reflexivity. }
  split; [ | split; [ | split; [ | split ] ] ].
  - rewrite B. repeat constructor; simpl; intuition discriminate.
  - intro x. rewrite R, B. simpl. tauto.
  - apply S3. apply incl_refl.
  - apply S3.
  - intros b Hb N. rewrite eval_scoped_spec, R.
    assert (F : in_scope scope b = false).
    { destruct (in_scope scope b) eqn:E; [ | reflexivity ].
      apply in_scope_In in E. contradiction. }
    rewrite B in Hb. simpl in Hb. simpl forallb.
    destruct Hb as [<- | [<- | [<- | []]]]; rewrite F;
      rewrite ?andb_false_r; reflexivity.
Qed.

(** Witness for [module_scope]: the first revision under a scope without
    [rehypeMermaid]. *)
Lemma module_scope_witness :
  In astro_config_1 [astro_config_1; astro_config_2]
  /\ In "rehypeMermaid" (bindings astro_config_1)
  /\ eval_scoped ["defineConfig"; "starlight"] (default_export astro_config_1) []
     = None.
Proof.
  split; [ left; reflexivity | ].
  split; [ simpl; tauto | ].
  destruct (module_scope astro_config_1 (or_introl eq_refl)
              ["defineConfig"; "starlight"] []) as [_ [_ [_ [_ H]]]].
  apply (H "rehypeMermaid").
  - simpl. tauto.
  - simpl. intuition discriminate.
Defined.

(** ** Keys written twice *)

Lemma assoc_last_absent :
  forall (k : string) (ps : list (string * JsValue)),
    existsb (String.eqb k) (map fst ps) = false -> assoc_last k ps = None.
Proof.
  intros k ps. induction ps as [| [k' v] ps IH]; simpl; intro H.
  - reflexivity.
  - apply orb_false_iff in H. destruct H as [H1 H2].
    rewrite (IH H2), H1. reflexivity.
Qed.

(** Where no key is written twice, the first and the last binding of a key
    are the same. *)
Lemma assoc_distinct :
  forall (k : string) (ps : list (string * JsValue)),
    distinct (map fst ps) = true -> assoc k ps = assoc_last k ps.
Proof.
  intros k ps. induction ps as [| [k' v] ps IH]; simpl; intro H.
  - reflexivity.
  - apply andb_prop in H. destruct H as [H1 H2].
    apply negb_true_iff in H1.
    destruct (String.eqb_spec k k') as [-> | N].
    + now rewrite (assoc_last_absent _ _ H1).
    + rewrite (IH H2). now destruct (assoc_last k ps).
Qed.

Lemma keys_distinct_JObj :
  forall ps, keys_distinct (JObj ps)
             = distinct (map fst ps) && keys_distinct_props ps.
Proof. reflexivity. Qed.

Lemma keys_distinct_assoc :
  forall (k : string) (ps : list (string * JsValue)) (w : JsValue),
    keys_distinct_props ps = true -> assoc k ps = Some w ->
    keys_distinct w = true.
Proof.
  intros k ps w. induction ps as [| [k' v] ps IH]; intros D A.
  - discriminate A.
  - change (keys_distinct_props ((k', v) :: ps))
      with (keys_distinct v && keys_distinct_props ps) in D.
    apply andb_prop in D. destruct D as [D1 D2].
    simpl in A. destruct (String.eqb k k').
    + now injection A as <-.
    + now apply IH.
Qed.

(** Where no object writes a key twice, reading along a path of keys gives
    the same by first binding and by last binding. *)
Lemma path_distinct :
  forall (ks : list string) (v : JsValue),
    keys_distinct v = true -> path ks v = path_last ks v.
Proof.
  induction ks as [| k ks IH]; intros v D.
  - reflexivity.
  - destruct v as [s | b | es | ps | x | f args]; try reflexivity.
    rewrite keys_distinct_JObj in D. apply andb_prop in D. destruct D as [D1 D2].
    simpl. rewrite <- (assoc_distinct k ps D1).
    destruct (assoc k ps) as [w |] eqn:A; [ | reflexivity ].
    simpl. apply IH. now apply keys_distinct_assoc with k ps.
Qed.

(** X2: no object literal of the configuration, at any depth and in either
    revision, writes a key twice; so every setting read along a path of
    keys, from the configuration object, from the theme options or from a
    sidebar entry, is the one value written for it: first and last binding
    agree. *)
Theorem no_key_written_twice :
  forall m, In m [astro_config_1; astro_config_2] ->
    keys_distinct (default_export m) = true
    /\ (forall c, config_object m = Some c ->
          forall ks, path ks c = path_last ks c)
    /\ (forall o, starlight_options m = Some o ->
          forall ks, path ks o = path_last ks o)
    /\ (forall e, In e (sidebar_entries m) ->
          forall ks, path ks e = path_last ks e).
Proof.
  intros m Hm.
  split; [ destruct Hm as [H | [H | []]]; subst m; reflexivity | ].
  split; [ | split ].
  - intros c C ks. apply path_distinct.
    destruct Hm as [H | [H | []]]; subst m;
      vm_compute in C; injection C as <-; reflexivity.
  - intros o O ks. apply path_distinct.
    destruct Hm as [H | [H | []]]; subst m;
      vm_compute in O; injection O as <-; reflexivity.
  - intros e E ks. apply path_distinct.
    destruct Hm as [H | [H | []]]; subst m; vm_compute in E;
      repeat (destruct E as [E | E]; [ subst e; reflexivity | ]);
      contradiction.
Qed.

(** Witness for [no_key_written_twice]: the markdown engine of the second
    revision, read by last binding. *)
Lemma no_key_written_twice_witness :
  In astro_config_2 [astro_config_1; astro_config_2]
  /\ (c <- config_object astro_config_2 ;;
      path_last ["markdown"; "syntaxHighlight"; "type"] c)
     = Some (JStr "shiki")
  /\ keys_distinct (default_export astro_config_2) = true.
Proof.
  split; [ right; left; reflexivity | ].
  split; [ reflexivity | ].
  apply (no_key_written_twice astro_config_2). right. left. reflexivity.
Defined.

(** With a key written twice the two lookups do differ. *)
Lemma first_and_last_binding_differ :
  assoc "base" [("base", JStr "/astro"); ("base", JStr "/")] = Some (JStr "/astro")
  /\ assoc_last "base" [("base", JStr "/astro"); ("base", JStr "/")] = Some (JStr "/").
Proof. split; reflexivity. Qed.

(** ** The two sidebars *)

Lemma under_directory_exists :
  forall (content : Content) (d s : string),
    under d s = true -> page_exists content s = true ->
    directory_exists content d = true.
Proof.
  intros content d s U P. apply page_exists_In in P.
  unfold directory_exists. apply existsb_exists. now exists s.
Qed.

Lemma refs_of_revisions :
  flat_map nav_refs (sidebar_entries astro_config_1)
  = [ RefDir "quick_reference"; RefPage "design_patterns";
      RefPage "design_patterns/creational"; RefPage "design_patterns/structural";
      RefPage "design_patterns/behavioral"; RefDir "external" ]
  /\ flat_map nav_refs (sidebar_entries astro_config_2)
     = [ RefDir "design_patterns" ].
Proof. split; reflexivity. Qed.

(** X3: the pages the first revision lists by slug under its [Design
    Patterns] group all lie under the group's own link taken as a directory,
    which is the directory the second revision autogenerates.  So for every
    content collection: each such page that exists is among the pages the
    second revision's sidebar generates, and if the first revision's sidebar
    resolves, so does the second's. *)
Theorem second_revision_covers_design_patterns :
  forall (content : Content) (e item : JsValue) (l s : string),
    In e (sidebar_entries astro_config_1) ->
    prop "link" e = Some (JStr l) ->
    In item (group_items e) ->
    prop "slug" item = Some (JStr s) ->
    under l s = true
    /\ flat_map nav_refs (sidebar_entries astro_config_2) = [RefDir l]
    /\ (page_exists content s = true ->
        In s (pages_of (navigation content (sidebar_entries astro_config_2))))
    /\ (sidebar_resolves content (sidebar_entries astro_config_1) = true ->
        sidebar_resolves content (sidebar_entries astro_config_2) = true).
Proof.
  intros content e item l s He Hl Hi Hs.
  assert (L : l = "design_patterns"
              /\ In s [ "design_patterns/creational"; "design_patterns/structural";
                        "design_patterns/behavioral" ]).
  { vm_compute in He.
    destruct He as [He | [He | [He | []]]]; subst e;
      vm_compute in Hl; try discriminate Hl.
    injection Hl as <-. split; [ reflexivity | ].
    vm_compute in Hi.
    destruct Hi as [Hi | [Hi | [Hi | []]]]; subst item;
      vm_compute in Hs; injection Hs as <-; simpl; tauto. }
  destruct L as [-> Ls].
  assert (U : under "design_patterns" s = true).
  { destruct Ls as [<- | [<- | [<- | []]]]; reflexivity. }
  split; [ exact U | split; [ reflexivity | split ] ].
  - intro P.
    change (sidebar_entries astro_config_2)
      with [nth 0 (sidebar_entries astro_config_2) (JBool false)].
    destruct (directive_navigation content
                (nth 0 (sidebar_entries astro_config_2) (JBool false))
                "design_patterns" eq_refl) as [Perm _].
    apply (Permutation_in _ (Permutation_sym Perm)).
    apply filter_In. split; [ now apply page_exists_In | exact U ].
  - unfold sidebar_resolves.
    destruct refs_of_revisions as [R1 R2]. rewrite R1, R2.
    simpl forallb. simpl ref_resolves. intro H.
    repeat (apply andb_prop in H; destruct H as [? H]).
    rewrite andb_true_r.
    now apply under_directory_exists with "design_patterns/creational".
Qed.

(** Witness for [second_revision_covers_design_patterns]: the behavioral
    patterns page, in a collection that holds it. *)
Lemma second_revision_covers_design_patterns_witness :
  let e := nth 1 (sidebar_entries astro_config_1) (JBool false) in
  let item := nth 2 (group_items e) (JBool false) in
  In e (sidebar_entries astro_config_1)
  /\ prop "link" e = Some (JStr "design_patterns")
  /\ In item (group_items e)
  /\ prop "slug" item = Some (JStr "design_patterns/behavioral")
  /\ In "design_patterns/behavioral"
        (pages_of (navigation ["guides/example"; "design_patterns/behavioral"]
                     (sidebar_entries astro_config_2))).
Proof.
  cbv zeta.
  split; [ right; left; reflexivity | ].
  split; [ reflexivity | ].
  split; [ right; right; left; reflexivity | ].
  split; [ reflexivity | ].
  apply (second_revision_covers_design_patterns
           ["guides/example"; "design_patterns/behavioral"]
           (nth 1 (sidebar_entries astro_config_1) (JBool false))
           (nth 2 (group_items (nth 1 (sidebar_entries astro_config_1) (JBool false)))
                (JBool false))
           "design_patterns" "design_patterns/behavioral").
  - right. left. reflexivity.
  - reflexivity.
  - right. right. left. reflexivity.
  - reflexivity.
  - reflexivity.
Defined.
